(** * ngraph_api.ops: the operator factory layer over the native engine

    A shallow embedding of [ngraph_api/ops.py].  The module is a thin layer
    over the native engine (pyngraph): every factory validates or coerces its
    arguments, calls one native constructor and optionally assigns a name to
    the node it got back.  At import time the module also binds the binary
    factories as the operator hooks of the native [Node] class.

    Python objects have identity and are mutated in place ([node.name = ...],
    [Node.__add__ = add]), so the embedding threads a [World] through every
    call: the engine's node store, addressed by handles, and the attribute
    dictionary of the [Node] class.  Exceptions are the left summand of the
    result. *)

From Stdlib Require Import QArith.
From stdpp Require Import gmap strings list fin_maps pretty.

Open Scope string_scope.
Open Scope nat_scope.

(** * Data model *)

(** The engine's element-type enumeration (pyngraph.Type). *)
Inductive ElementType :=
  boolean | f32 | f64 | i8 | i16 | i32 | i64 | u8 | u16 | u32 | u64.

(** NumericType: the numpy type tags a caller may pass as [dtype]; anything
    the lookup table does not list is [np_other]. *)
Inductive NumericType :=
  | np_bool | np_float32 | np_float64
  | np_int8 | np_int16 | np_int32 | np_int64
  | np_uint8 | np_uint16 | np_uint32 | np_uint64
  | np_other (type_name : string).

(** TensorShape is a list of Python ints, an AxisSet a set of positions. *)
Abbreviation TensorShape := (list Z) (only parsing).
Abbreviation AxisSet := (gset nat) (only parsing).

(** A Node is a handle to an object owned by the engine. *)
Abbreviation Node := nat (only parsing).

(** Python numbers, and NumericData = number or numpy array (an array is its
    dtype, its shape and its flattened values). *)
Inductive Number := PyInt (z : Z) | PyFloat (q : Q).

Inductive NumericData :=
  | Scalar (x : Number)
  | NdArray (dtype : NumericType) (dims : TensorShape) (flat : list Q).

(** NodeInput = Node or NumericData. *)
Inductive NodeInput := Handle (n : Node) | Raw (v : NumericData).

(** What a caller can put in the list given as [shape]. *)
Inductive PyValue := VInt (z : Z) | VFloat (q : Q) | VStr (s : string) | VNone.

(** The native constructors imported from pyngraph.op. *)
Inductive UnaryKind := Abs | Sqrt | Exp | Log | Negative | Floor | Ceiling.

Inductive BinaryKind :=
  | Divide | Multiply | Subtract | Add | Minimum | Maximum
  | Equal | NotEqual | Greater | GreaterEq | Less | LessEq.

Inductive Ctor :=
  | op_Parameter (element_type : ElementType) (shape : TensorShape)
  | op_Constant (element_type : ElementType) (shape : TensorShape) (values : list Q)
  | op_Unary (k : UnaryKind)
  | op_Binary (k : BinaryKind)
  | op_Broadcast (shape : TensorShape) (axes : AxisSet)
  | op_Convert (element_type : ElementType).

(** The attributes of a node object. *)
Record NodeObj := mkNodeObj {
  node_op : Ctor;
  node_inputs : list Node;
  node_shape : TensorShape;
  node_element_type : ElementType;
  node_name : string
}.

Definition with_name (s : string) (o : NodeObj) : NodeObj :=
  {| node_op := node_op o; node_inputs := node_inputs o;
     node_shape := node_shape o; node_element_type := node_element_type o;
     node_name := s |}.

(** A function object stored in the [Node] class: one of the binary factories
    of this module, or [lambda left, right: f(right, left)] around one. *)
Inductive Callable :=
  | factory (k : BinaryKind)
  | lambda_swapped (k : BinaryKind).

Record World := mkWorld {
  nodes : list NodeObj;
  Node_dict : gmap string Callable
}.

(** The error conditions a call can end in. *)
Inductive Error :=
  | InvalidArgument (message : string)
  | NativeEngineError
  | TypeError (message : string).

(** * Computations: state and exceptions *)

Definition M (A : Type) : Type := World → (Error + A) * World.

Definition ret {A} (a : A) : M A := λ w, (inr a, w).

Definition raise {A} (e : Error) : M A := λ w, (inl e, w).

Definition bind {A B} (m : M A) (k : A → M B) : M B :=
  λ w, match m w with
       | (inr a, w') => k a w'
       | (inl e, w') => (inl e, w')
       end.

Notation "'let!' x ':=' m 'in' k" := (bind m (λ x, k))
  (at level 10, x name, m at level 100, k at level 200).
Notation "'run!' m 'in' k" := (bind m (λ _, k))
  (at level 10, m at level 100, k at level 200).

(** * The native engine

    What the engine decides on its own is a parameter of the development:
    the output shape and element type of an operator node (or its refusal to
    build the node), and the name it generates for a new node. *)
Class NativeEngine := {
  infer : Ctor → list NodeObj → option (TensorShape * ElementType);
  unique_name : Ctor → Node → string
}.

Section ops.
Context `{NativeEngine}.

(** Modelled from the spec: the node types of pyngraph.op are not part of
    the sources.  A Parameter and a Constant are built from an element type
    and a shape and carry them; the shape and element type of every other
    node are determined by the engine. *)
Definition output_type (c : Ctor) (args : list NodeObj)
  : option (TensorShape * ElementType) :=
  match c with
  | op_Parameter et s => Some (s, et)
  | op_Constant et s _ => Some (s, et)
  | _ => infer c args
  end.

(** Modelled from the spec: the native constructors of pyngraph are not part
    of the sources.  A constructor call on node handles either fails in the
    engine and produces no node, or produces one new node: the engine looks
    the inputs up, type-checks the new node and stores it under a fresh
    handle, with a name it generates. *)
Definition engine_construct (c : Ctor) (inputs : list Node) : M Node :=
  λ w, match mapM (λ n, nodes w !! n) inputs with
       | None => (inl NativeEngineError, w)
       | Some args =>
           match output_type c args with
           | None => (inl NativeEngineError, w)
           | Some (s, et) =>
               let id := length (nodes w) in
               (inr id,
                mkWorld (nodes w ++ [mkNodeObj c inputs s et (unique_name c id)])
                        (Node_dict w))
           end
       end.

Fixpoint handles (args : list NodeInput) : option (list Node) :=
  match args with
  | [] => Some []
  | Handle n :: rest => cons n <$> handles rest
  | Raw _ :: _ => None
  end.

(** A native constructor as Python sees it: it takes any objects, and the
    binding refuses operands that are not Node objects. *)
Definition native_call (c : Ctor) (args : list NodeInput) : M Node :=
  match handles args with
  | Some ns => engine_construct c ns
  | None => raise (TypeError "incompatible constructor arguments")
  end.

(** Reading [node.shape]. *)
Definition get_shape (node : Node) : M TensorShape :=
  λ w, match nodes w !! node with
       | Some o => (inr (node_shape o), w)
       | None => (inl NativeEngineError, w)
       end.

(** ** Helpers of ngraph_api.utils *)

(** Modelled from the spec: [get_element_type] of ngraph_api.utils.types is
    not part of the sources.  It is the lookup from a NumericType tag to the
    engine's element-type enumeration; a tag outside the table has no
    element type. *)
Definition get_element_type (data_type : NumericType) : M ElementType :=
  match data_type with
  | np_bool => ret boolean
  | np_float32 => ret f32
  | np_float64 => ret f64
  | np_int8 => ret i8
  | np_int16 => ret i16
  | np_int32 => ret i32
  | np_int64 => ret i64
  | np_uint8 => ret u8
  | np_uint16 => ret u16
  | np_uint32 => ret u32
  | np_uint64 => ret u64
  | np_other _ => raise (TypeError "unidentified data type")
  end.

Definition is_int (v : PyValue) : bool :=
  match v with VInt _ => true | _ => false end.

(** Modelled from the spec: [assert_list_of_ints] of
    ngraph_api.utils.input_validation is not part of the sources.  It fails
    with an InvalidArgument condition carrying the given message if any entry
    of the list is not an integer, and does nothing otherwise. *)
Definition assert_list_of_ints (value_list : list PyValue) (message : string)
  : M unit :=
  if forallb is_int value_list then ret tt else raise (InvalidArgument message).

(** The conversion of a Python list to the engine's Shape at the binding. *)
Fixpoint to_shape (l : list PyValue) : option TensorShape :=
  match l with
  | [] => Some []
  | VInt z :: rest => cons z <$> to_shape rest
  | _ :: _ => None
  end.

Definition native_Parameter (element_type : ElementType) (shape : list PyValue)
  : M Node :=
  match to_shape shape with
  | Some dims => native_call (op_Parameter element_type dims) []
  | None => raise (TypeError "incompatible constructor arguments")
  end.

(** The numpy dtype of a literal: a Python int is an int64 array, a Python
    float a float64 array, an array has its own. *)
Definition literal_dtype (value : NumericData) : NumericType :=
  match value with
  | Scalar (PyInt _) => np_int64
  | Scalar (PyFloat _) => np_float64
  | NdArray dtype _ _ => dtype
  end.

Definition literal_shape (value : NumericData) : TensorShape :=
  match value with
  | Scalar _ => []
  | NdArray _ dims _ => dims
  end.

Definition literal_values (value : NumericData) : list Q :=
  match value with
  | Scalar (PyInt z) => [inject_Z z]
  | Scalar (PyFloat q) => [q]
  | NdArray _ _ flat => flat
  end.

(** Modelled from the spec: [make_constant_node] of ngraph_api.utils.types
    is not part of the sources.  It is the constant-node builder: it takes a
    literal and an optional type, infers the type from the literal's own
    representation when none is given, and builds a Constant node holding
    the value. *)
Definition make_constant_node (value : NumericData) (dtype : option NumericType)
  : M Node :=
  let! element_type := get_element_type (default (literal_dtype value) dtype) in
  native_call
    (op_Constant element_type (literal_shape value) (literal_values value)) [].

(** Modelled from the spec: [as_node] of ngraph_api.utils.types is not part
    of the sources.  A NodeInput that is not already a Node handle is lifted
    into a Constant node. *)
Definition as_node (input_value : NodeInput) : M Node :=
  match input_value with
  | Handle n => ret n
  | Raw v => make_constant_node v None
  end.

(** [node.name = s]: the name attribute of that one object is replaced. *)
Definition set_name (node : Node) (s : string) : M unit :=
  λ w, (inr tt, mkWorld (alter (with_name s) node (nodes w)) (Node_dict w)).

(** Modelled from the spec: the naming step of the decorators of
    ngraph_api.utils.decorators, which are not part of the sources.  The
    name is assigned only if the caller gave one. *)
Definition set_node_name (node : Node) (name : option string) : M Node :=
  match name with
  | Some s => run! set_name node s in ret node
  | None => ret node
  end.

(** Modelled from the spec: the decorator [nameable_op] of
    ngraph_api.utils.decorators is not part of the sources.  After the
    wrapped factory has built its node, the name given by the caller, if
    any, is assigned to the resulting handle. *)
Definition nameable_op (node_factory_function : M Node) (name : option string)
  : M Node :=
  let! node := node_factory_function in
  set_node_name node name.

(** Modelled from the spec: the decorator [unary_op] of
    ngraph_api.utils.decorators is not part of the sources.  The operand is
    coerced to a Node handle before the wrapped factory runs, and the name is
    assigned afterwards. *)
Definition unary_op (node_factory_function : NodeInput → M Node)
    (input_value : NodeInput) (name : option string) : M Node :=
  let! input_node := as_node input_value in
  let! node := node_factory_function (Handle input_node) in
  set_node_name node name.

(** Modelled from the spec: the decorator [binary_op] of
    ngraph_api.utils.decorators is not part of the sources.  Each of the two
    operands is independently coerced to a Node handle before the wrapped
    factory runs, and the name is assigned afterwards. *)
Definition binary_op (node_factory_function : NodeInput → NodeInput → M Node)
    (left right : NodeInput) (name : option string) : M Node :=
  let! left_node := as_node left in
  let! right_node := as_node right in
  let! node := node_factory_function (Handle left_node) (Handle right_node) in
  set_node_name node name.

(** Modelled from the spec: [get_broadcast_axes] of
    ngraph_api.utils.broadcasting is not part of the sources.  The target
    shape must have at least as many dimensions as the node's shape
    (InvalidArgument otherwise).  The node's dimensions map, in order, to the
    trailing axes of the target shape when no axis is given, and to the axes
    from [axis] on otherwise; the broadcast axes are the remaining positions
    of the target shape. *)
Definition get_broadcast_axes (output_shape input_shape : TensorShape)
    (axis : option nat) : M AxisSet :=
  if length output_shape <? length input_shape then
    raise (InvalidArgument "the target shape has fewer dimensions than the node")
  else
    let begin :=
      match axis with
      | None => length output_shape - length input_shape
      | Some a => a
      end in
    let kept := seq begin (length input_shape) in
    ret (list_to_set
           (filter (λ i, i ∉ kept) (seq 0 (length output_shape)))).

(** ** The factory functions of ops.py

    An omitted keyword argument is [None]; [parameter] takes np.float32 for
    an omitted [dtype]. *)

Definition parameter (shape : list PyValue) (dtype : option NumericType)
    (name : option string) : M Node :=
  nameable_op
    (run! assert_list_of_ints shape
            "Parameter shape must be a list of integer values." in
     let! element_type := get_element_type (default np_float32 dtype) in
     native_Parameter element_type shape)
    name.

Definition constant (value : NumericData) (dtype : option NumericType)
    (name : option string) : M Node :=
  nameable_op (make_constant_node value dtype) name.

(** Unary ops *)
Definition absolute : NodeInput → option string → M Node :=
  unary_op (λ node,
    let! node := as_node node in
    native_call (op_Unary Abs) [Handle node]).

Definition sqrt : NodeInput → option string → M Node :=
  unary_op (λ node, native_call (op_Unary Sqrt) [node]).

Definition exp : NodeInput → option string → M Node :=
  unary_op (λ node, native_call (op_Unary Exp) [node]).

Definition log : NodeInput → option string → M Node :=
  unary_op (λ node, native_call (op_Unary Log) [node]).

Definition negative : NodeInput → option string → M Node :=
  unary_op (λ node, native_call (op_Unary Negative) [node]).

Definition floor : NodeInput → option string → M Node :=
  unary_op (λ node, native_call (op_Unary Floor) [node]).

Definition ceiling : NodeInput → option string → M Node :=
  unary_op (λ node, native_call (op_Unary Ceiling) [node]).

(** Binary ops *)
Definition divide : NodeInput → NodeInput → option string → M Node :=
  binary_op (λ left_node right_node,
    native_call (op_Binary Divide) [left_node; right_node]).

Definition multiply : NodeInput → NodeInput → option string → M Node :=
  binary_op (λ left_node right_node,
    native_call (op_Binary Multiply) [left_node; right_node]).

Definition subtract : NodeInput → NodeInput → option string → M Node :=
  binary_op (λ left_node right_node,
    native_call (op_Binary Subtract) [left_node; right_node]).

Definition add : NodeInput → NodeInput → option string → M Node :=
  binary_op (λ left_node right_node,
    native_call (op_Binary Add) [left_node; right_node]).

Definition minimum : NodeInput → NodeInput → option string → M Node :=
  binary_op (λ left_node right_node,
    native_call (op_Binary Minimum) [left_node; right_node]).

Definition maximum : NodeInput → NodeInput → option string → M Node :=
  binary_op (λ left_node right_node,
    native_call (op_Binary Maximum) [left_node; right_node]).

Definition equal : NodeInput → NodeInput → option string → M Node :=
  binary_op (λ left_node right_node,
    native_call (op_Binary Equal) [left_node; right_node]).

Definition not_equal : NodeInput → NodeInput → option string → M Node :=
  binary_op (λ left_node right_node,
    native_call (op_Binary NotEqual) [left_node; right_node]).

Definition greater : NodeInput → NodeInput → option string → M Node :=
  binary_op (λ left_node right_node,
    native_call (op_Binary Greater) [left_node; right_node]).

Definition greater_eq : NodeInput → NodeInput → option string → M Node :=
  binary_op (λ left_node right_node,
    native_call (op_Binary GreaterEq) [left_node; right_node]).

Definition less : NodeInput → NodeInput → option string → M Node :=
  binary_op (λ left_node right_node,
    native_call (op_Binary Less) [left_node; right_node]).

Definition less_eq : NodeInput → NodeInput → option string → M Node :=
  binary_op (λ left_node right_node,
    native_call (op_Binary LessEq) [left_node; right_node]).

(** Custom ops.  The arguments of the constructor call are evaluated before
    the call: [node.shape] is read and the axes are computed first. *)
Definition broadcast (node : Node) (new_shape : TensorShape)
    (axis : option nat) (name : option string) : M Node :=
  nameable_op
    (let! shape := get_shape node in
     let! axes := get_broadcast_axes new_shape shape axis in
     native_call (op_Broadcast new_shape axes) [Handle node])
    name.

Definition convert (node : Node) (new_type : NumericType)
    (name : option string) : M Node :=
  nameable_op
    (let! new_element_type := get_element_type new_type in
     native_call (op_Convert new_element_type) [Handle node])
    name.

(** The factory a native operator kind is wrapped by. *)
Definition unary_factory (k : UnaryKind) : NodeInput → option string → M Node :=
  match k with
  | Abs => absolute
  | Sqrt => sqrt
  | Exp => exp
  | Log => log
  | Negative => negative
  | Floor => floor
  | Ceiling => ceiling
  end.

Definition binary_factory (k : BinaryKind)
  : NodeInput → NodeInput → option string → M Node :=
  match k with
  | Divide => divide
  | Multiply => multiply
  | Subtract => subtract
  | Add => add
  | Minimum => minimum
  | Maximum => maximum
  | Equal => equal
  | NotEqual => not_equal
  | Greater => greater
  | GreaterEq => greater_eq
  | Less => less
  | LessEq => less_eq
  end.

(** ** Operator overloads on the Node class *)

(** Calling a function object stored in the class with [(self, other)]. *)
Definition call (f : Callable) (left right : NodeInput) : M Node :=
  match f with
  | factory k => binary_factory k left right None
  | lambda_swapped k => binary_factory k right left None
  end.

(** The assignments [Node.__add__ = add], ... of the module body, in source
    order. *)
Definition overloads : list (string * Callable) :=
  [ ("__add__", factory Add);
    ("__sub__", factory Subtract);
    ("__mul__", factory Multiply);
    ("__div__", factory Divide);
    ("__truediv__", factory Divide);
    ("__radd__", lambda_swapped Add);
    ("__rsub__", lambda_swapped Subtract);
    ("__rmul__", lambda_swapped Multiply);
    ("__rdiv__", lambda_swapped Divide);
    ("__rtruediv__", lambda_swapped Divide);
    ("__eq__", factory Equal);
    ("__ne__", factory NotEqual);
    ("__lt__", factory Less);
    ("__le__", factory LessEq);
    ("__gt__", factory Greater);
    ("__ge__", factory GreaterEq) ].

Definition setattr_Node (w : World) (binding : string * Callable) : World :=
  mkWorld (nodes w) (<[binding.1 := binding.2]> (Node_dict w)).

(** Executing the module body: the [def]s bind module-level names only, the
    assignments to attributes of [Node] change the class. *)
Definition module_load (w : World) : World := foldl setattr_Node w overloads.

(** The infix operators of the host language; [/] is [op_div] under classic
    division and [op_truediv] under true division. *)
Inductive Operator :=
  | op_plus | op_minus | op_times | op_div | op_truediv
  | op_eq | op_ne | op_lt | op_le | op_gt | op_ge.

Definition hook (o : Operator) : string :=
  match o with
  | op_plus => "__add__" | op_minus => "__sub__" | op_times => "__mul__"
  | op_div => "__div__" | op_truediv => "__truediv__"
  | op_eq => "__eq__" | op_ne => "__ne__"
  | op_lt => "__lt__" | op_le => "__le__"
  | op_gt => "__gt__" | op_ge => "__ge__"
  end.

(** The hook of the right operand that is tried when the left operand does
    not handle the operation: the r-variant for arithmetic, the mirrored
    comparison for comparisons. *)
Definition reflected_hook (o : Operator) : string :=
  match o with
  | op_plus => "__radd__" | op_minus => "__rsub__" | op_times => "__rmul__"
  | op_div => "__rdiv__" | op_truediv => "__rtruediv__"
  | op_eq => "__eq__" | op_ne => "__ne__"
  | op_lt => "__gt__" | op_le => "__ge__"
  | op_gt => "__lt__" | op_ge => "__le__"
  end.

(** An infix expression with at least one Node operand.  A Python number on
    the left does not know the Node class, so its own hook declines. *)
Inductive Expr :=
  | NodeFirst (left : Node) (o : Operator) (right : NodeInput)
  | NumberFirst (left : Number) (o : Operator) (right : Node).

(** The value of an expression is a node or, for the comparison of object
    identity that Python falls back to, a bool. *)
Inductive PyResult := RNode (n : Node) | RBool (b : bool).

Definition as_result (m : M Node) : M PyResult :=
  let! n := m in ret (RNode n).

(** Object identity; a number is never the same object as a node. *)
Definition same_object (a b : NodeInput) : bool :=
  match a, b with
  | Handle x, Handle y => bool_decide (x = y)
  | _, _ => false
  end.

(** What Python does when no hook handles the operation. *)
Definition unhandled (o : Operator) (left right : NodeInput) : M PyResult :=
  match o with
  | op_eq => ret (RBool (same_object left right))
  | op_ne => ret (RBool (negb (same_object left right)))
  | _ => raise (TypeError "unsupported operand type(s)")
  end.

Definition is_rich_comparison (o : Operator) : bool :=
  match o with
  | op_eq | op_ne | op_lt | op_le | op_gt | op_ge => true
  | _ => false
  end.

(** The left operand's hook is tried first.  When it does not handle the
    operation, the right operand's reflected hook is tried: always for a
    comparison, and for arithmetic only if the operands are of different
    types.  A hook bound to a factory always handles the operation: it
    returns a node or raises. *)
Definition eval (e : Expr) : M PyResult :=
  λ w, match e with
       | NodeFirst l o r =>
           match Node_dict w !! hook o with
           | Some f => as_result (call f (Handle l) r) w
           | None =>
               match r, is_rich_comparison o, Node_dict w !! reflected_hook o with
               | Handle _, true, Some g => as_result (call g r (Handle l)) w
               | _, _, _ => unhandled o (Handle l) r w
               end
           end
       | NumberFirst l o r =>
           match Node_dict w !! reflected_hook o with
           | Some f => as_result (call f (Handle r) (Raw (Scalar l))) w
           | None => unhandled o (Raw (Scalar l)) (Handle r) w
           end
       end.

(** ** Calls into the module *)

(** A call of one of the factories, without its [name] keyword. *)
Inductive FactoryCall :=
  | call_parameter (shape : list PyValue) (dtype : option NumericType)
  | call_constant (value : NumericData) (dtype : option NumericType)
  | call_unary (k : UnaryKind) (node : NodeInput)
  | call_binary (k : BinaryKind) (left_node right_node : NodeInput)
  | call_broadcast (node : Node) (new_shape : TensorShape) (axis : option nat)
  | call_convert (node : Node) (new_type : NumericType).

Definition run_call (c : FactoryCall) (name : option string) : M Node :=
  match c with
  | call_parameter shape dtype => parameter shape dtype name
  | call_constant value dtype => constant value dtype name
  | call_unary k node => unary_factory k node name
  | call_binary k l r => binary_factory k l r name
  | call_broadcast node new_shape axis => broadcast node new_shape axis name
  | call_convert node new_type => convert node new_type name
  end.

(** What a client does after importing the module: factory calls and infix
    expressions over nodes. *)
Inductive Action :=
  | do_call (c : FactoryCall) (name : option string)
  | do_eval (e : Expr).

Definition step (w : World) (a : Action) : World :=
  match a with
  | do_call c name => (run_call c name w).2
  | do_eval e => (eval e w).2
  end.

(** A session: the module is loaded, then the client's actions run. *)
Definition session (actions : list Action) (w : World) : World :=
  foldl step (module_load w) actions.

(** ** The common shape of a factory call

    Every factory prepares the arguments of one native constructor, calls
    it on node handles and names the node it gets back. *)

Definition construct_named (c : Ctor) (inputs : list Node)
    (name : option string) : M Node :=
  let! node := engine_construct c inputs in
  set_node_name node name.

Definition prepare (c : FactoryCall) : M (Ctor * list Node) :=
  match c with
  | call_parameter shape dtype =>
      run! assert_list_of_ints shape
             "Parameter shape must be a list of integer values." in
      let! element_type := get_element_type (default np_float32 dtype) in
      match to_shape shape with
      | Some dims => ret (op_Parameter element_type dims, [])
      | None => raise (TypeError "incompatible constructor arguments")
      end
  | call_constant value dtype =>
      let! element_type :=
        get_element_type (default (literal_dtype value) dtype) in
      ret (op_Constant element_type (literal_shape value)
             (literal_values value), [])
  | call_unary k node =>
      let! input_node := as_node node in
      ret (op_Unary k, [input_node])
  | call_binary k left_node right_node =>
      let! left := as_node left_node in
      let! right := as_node right_node in
      ret (op_Binary k, [left; right])
  | call_broadcast node new_shape axis =>
      let! shape := get_shape node in
      let! axes := get_broadcast_axes new_shape shape axis in
      ret (op_Broadcast new_shape axes, [node])
  | call_convert node new_type =>
      let! new_element_type := get_element_type new_type in
      ret (op_Convert new_element_type, [node])
  end.

(** [w'] extends [w]: the class dictionary is the same and the nodes of [w]
    are still there, unchanged, under their handles. *)
Definition extends (w w' : World) : Prop :=
  Node_dict w' = Node_dict w ∧ nodes w `prefix_of` nodes w'.

(** A computation is stable if every run of it ends in an extension of the
    world it started in. *)
Definition stable {A} (m : M A) : Prop := ∀ w, extends w (m w).2.

(** ** Arithmetic operators and number literals *)


(** The Constant node object a literal is lifted into. *)
Definition literal_node (value : NumericData) (et : ElementType) (id : Node)
  : NodeObj :=
  let c := op_Constant et (literal_shape value) (literal_values value) in
  mkNodeObj c [] (literal_shape value) et (unique_name c id).

Definition number_type (a : Number) : ElementType :=
  match a with PyInt _ => i64 | PyFloat _ => f64 end.

(** The world after the number [a] has been lifted into a node. *)
Definition with_literal (a : Number) (w : World) : World :=
  mkWorld
    (nodes w ++ [literal_node (Scalar a) (number_type a) (length (nodes w))])
    (Node_dict w).

End ops.

(** * Operators, calls and worlds: further vocabulary *)

(** The factory each infix operator is bound to by the assignments of the
    module body. *)
Definition operator_factory (o : Operator) : BinaryKind :=
  match o with
  | op_plus => Add | op_minus => Subtract | op_times => Multiply
  | op_div => Divide | op_truediv => Divide
  | op_eq => Equal | op_ne => NotEqual
  | op_lt => Less | op_le => LessEq
  | op_gt => Greater | op_ge => GreaterEq
  end.

(** The comparison that holds of [(y, x)] when the given one holds of
    [(x, y)]. *)
Definition mirrored (k : BinaryKind) : BinaryKind :=
  match k with
  | Less => Greater | Greater => Less
  | LessEq => GreaterEq | GreaterEq => LessEq
  | _ => k
  end.

(** Whether a call has a raw literal among its operands. *)
Definition lifts_operand (c : FactoryCall) : bool :=
  match c with
  | call_unary _ (Raw _) => true
  | call_binary _ (Raw _) _ => true
  | call_binary _ _ (Raw _) => true
  | _ => false
  end.

(** The native constructor a factory call ends in. *)
Definition built_by (c : FactoryCall) (ctor : Ctor) : Prop :=
  match c, ctor with
  | call_parameter _ _, op_Parameter _ _ => True
  | call_constant _ _, op_Constant _ _ _ => True
  | call_unary k _, op_Unary k' => k = k'
  | call_binary k _ _, op_Binary k' => k = k'
  | call_broadcast _ new_shape _, op_Broadcast shape _ => new_shape = shape
  | call_convert _ _, op_Convert _ => True
  | _, _ => False
  end.

(** Whether the element-type lookup knows a type tag. *)
Definition supported (data_type : NumericType) : bool :=
  match data_type with np_other _ => false | _ => true end.

(** Every input of every node is a node that was stored before it. *)
Definition inputs_precede (w : World) : Prop :=
  ∀ i o j, nodes w !! i = Some o → j ∈ node_inputs o → j < i.

(** A computation preserves a property of the world, however it ends. *)
Definition preserves (P : World → Prop) {A} (m : M A) : Prop :=
  ∀ w, P w → P (m w).2.

(** * A reference engine

    A small engine to run the layer on: elementwise operators keep the shape
    of their operand, binary operators want operands of one shape and one
    element type, comparisons yield booleans, and a broadcast wants the
    operand's shape to be the target shape without the broadcast axes. *)

#[global] Instance ElementType_eq_dec : EqDecision ElementType.
Proof. solve_decision. Defined.

Definition is_comparison (k : BinaryKind) : bool :=
  match k with
  | Equal | NotEqual | Greater | GreaterEq | Less | LessEq => true
  | _ => false
  end.

Definition drop_axes (axes : gset nat) (shape : list Z) : list Z :=
  (filter (λ p, p.1 ∉ axes) (imap (λ i d, (i, d)) shape)).*2.

Definition reference_infer (c : Ctor) (args : list NodeObj)
  : option (list Z * ElementType) :=
  match c, args with
  | op_Unary _, [a] => Some (node_shape a, node_element_type a)
  | op_Binary k, [a; b] =>
      if bool_decide (node_shape a = node_shape b
                      ∧ node_element_type a = node_element_type b)
      then Some (node_shape a,
                 if is_comparison k then boolean else node_element_type a)
      else None
  | op_Broadcast shape axes, [a] =>
      if bool_decide (drop_axes axes shape = node_shape a)
      then Some (shape, node_element_type a)
      else None
  | op_Convert et, [a] => Some (node_shape a, et)
  | _, _ => None
  end.

Definition description (c : Ctor) : string :=
  match c with
  | op_Parameter _ _ => "Parameter"
  | op_Constant _ _ _ => "Constant"
  | op_Unary Abs => "Abs"
  | op_Unary Sqrt => "Sqrt"
  | op_Unary Exp => "Exp"
  | op_Unary Log => "Log"
  | op_Unary Negative => "Negative"
  | op_Unary Floor => "Floor"
  | op_Unary Ceiling => "Ceiling"
  | op_Binary Divide => "Divide"
  | op_Binary Multiply => "Multiply"
  | op_Binary Subtract => "Subtract"
  | op_Binary Add => "Add"
  | op_Binary Minimum => "Minimum"
  | op_Binary Maximum => "Maximum"
  | op_Binary Equal => "Equal"
  | op_Binary NotEqual => "NotEqual"
  | op_Binary Greater => "Greater"
  | op_Binary GreaterEq => "GreaterEq"
  | op_Binary Less => "Less"
  | op_Binary LessEq => "LessEq"
  | op_Broadcast _ _ => "Broadcast"
  | op_Convert _ => "Convert"
  end.

Definition reference_engine : NativeEngine :=
  {| infer := reference_infer;
     unique_name := λ c id, description c +:+ "_" +:+ pretty id |}.

Definition empty_world : World := mkWorld [] ∅.

(** The shape [3, 4] parameter used in the examples, and the world that
    holds it after the module is loaded. *)
Definition world_3_4 : World :=
  (@parameter reference_engine [VInt 3; VInt 4] None None
     (module_load empty_world)).2.

(** Two scalar int64 parameters, nodes 0 and 1, created after the load. *)
Definition two_parameters : list Action :=
  [ do_call (call_parameter [] (Some np_int64)) None;
    do_call (call_parameter [] (Some np_int64)) None ].

(** * Properties *)

Section properties.
Context `{NativeEngine}.

(** ** The broadcast axes *)

Lemma trailing_complement (n m : nat) :
  m ≤ n →
  list_to_set (filter (λ i, i ∉ seq (n - m) m) (seq 0 n))
  = (set_seq 0 (n - m) : gset nat).
Proof.
  intros Hle. apply set_eq. intros i.
  rewrite elem_of_list_to_set, list_elem_of_filter, !elem_of_seq,
    elem_of_set_seq.
  lia.
Qed.

Lemma get_broadcast_axes_default (output_shape input_shape : list Z) (w : World) :
  length input_shape ≤ length output_shape →
  get_broadcast_axes output_shape input_shape None w
  = (inr (set_seq 0 (length output_shape - length input_shape)), w).
Proof.
  intros Hle. unfold get_broadcast_axes.
  destruct (Nat.ltb_spec (length output_shape) (length input_shape)); [lia|].
  unfold ret. by rewrite trailing_complement.
Qed.

Lemma broadcast_default_axes_aux (node : nat) (o : NodeObj)
    (new_shape : list Z) (name : option string) (w : World) :
  nodes w !! node = Some o →
  length (node_shape o) ≤ length new_shape →
  let axes : gset nat :=
    set_seq 0 (length new_shape - length (node_shape o)) in
  get_broadcast_axes new_shape (node_shape o) None w = (inr axes, w)
  ∧ broadcast node new_shape None name w
    = nameable_op (native_call (op_Broadcast new_shape axes) [Handle node])
        name w.
Proof.
  intros Hnode Hle axes. split; [by apply get_broadcast_axes_default|].
  unfold broadcast, nameable_op, bind at 1 2 3, get_shape.
  rewrite Hnode. by rewrite get_broadcast_axes_default.
Qed.

(** C1: with no axis argument, [broadcast] computes the axis set
    {0, ..., n-m-1} of the new leading axes, for a node with a shape of
    length m and a target shape of length n >= m, and passes it to the
    native Broadcast constructor together with the node and the target
    shape.  For a node of shape [3, 4] and the target shape [2, 3, 4] the
    set is {0}. *)
Theorem broadcast_default_axes (node : nat) (o : NodeObj) (new_shape : list Z)
    (name : option string) (w : World) :
  nodes w !! node = Some o →
  length (node_shape o) ≤ length new_shape →
  let axes : gset nat :=
    set_seq 0 (length new_shape - length (node_shape o)) in
  get_broadcast_axes new_shape (node_shape o) None w = (inr axes, w)
  ∧ broadcast node new_shape None name w
    = nameable_op (native_call (op_Broadcast new_shape axes) [Handle node])
        name w
  ∧ (node_shape o = [3; 4]%Z → new_shape = [2; 3; 4]%Z → axes = {[0]}).
Proof.
  intros Hnode Hle axes.
  destruct (broadcast_default_axes_aux node o new_shape name w Hnode Hle)
    as [Haxes Hcall].
  split; [done|]. split; [done|].
  intros Hs ->. subst axes. by rewrite Hs.
Qed.



(** ** Native constructor calls *)

Lemma engine_construct_inr (c : Ctor) (inputs : list nat) (w w' : World) (n : nat) :
  engine_construct c inputs w = (inr n, w') →
  ∃ args s et,
    mapM (λ i, nodes w !! i) inputs = Some args
    ∧ output_type c args = Some (s, et)
    ∧ n = length (nodes w)
    ∧ w' = mkWorld (nodes w ++ [mkNodeObj c inputs s et (unique_name c n)])
             (Node_dict w).
Proof.
  unfold engine_construct. intros Hrun.
  destruct (mapM _ inputs) as [args|]; [|done].
  destruct (output_type c args) as [[s et]|] eqn:Hty; [|done].
  inversion Hrun; subst. by exists args, s, et.
Qed.

Lemma engine_construct_inl (c : Ctor) (inputs : list nat) (w w' : World) (e : Error) :
  engine_construct c inputs w = (inl e, w') → e = NativeEngineError ∧ w' = w.
Proof.
  unfold engine_construct. intros Hrun.
  destruct (mapM _ inputs) as [args|]; [|by inversion Hrun].
  destruct (output_type c args) as [[s et]|]; by inversion Hrun.
Qed.

(** Naming the node that was stored last changes that object's name. *)
Lemma set_node_name_last (pre : list NodeObj) (o : NodeObj)
    (name : option string) (dict : gmap string Callable) :
  set_node_name (length pre) name (mkWorld (pre ++ [o]) dict)
  = (inr (length pre),
     mkWorld (pre ++ [from_option (λ s, with_name s o) o name]) dict).
Proof.
  destruct name as [s|]; [|done].
  unfold set_node_name, bind, set_name, ret. simpl.
  rewrite alter_app_r_alt by lia. by rewrite Nat.sub_diag.
Qed.

(** ** The normal form of a factory call *)

(** Run the next computation; an exception ends both sides alike. *)
Ltac run m := destruct m as [[?|?] ?]; [done|].

Lemma run_call_normal_form (c : FactoryCall) (name : option string) (w : World) :
  run_call c name w
  = (let! p := prepare c in construct_named p.1 p.2 name) w.
Proof.
  destruct c as [shape dtype|value dtype|k x|k l r|node new_shape axis|node t];
    cbn [run_call prepare].
  - unfold parameter, nameable_op, construct_named, native_Parameter, bind.
    run (assert_list_of_ints shape
           "Parameter shape must be a list of integer values." w).
    run (get_element_type (default np_float32 dtype) w0).
    by destruct (to_shape shape).
  - unfold constant, nameable_op, make_constant_node, construct_named, bind.
    by run (get_element_type (default (literal_dtype value) dtype) w).
  - destruct k; cbn [unary_factory]; unfold absolute, sqrt, exp, log, negative, floor, ceiling,
      unary_op, construct_named, bind; by run (as_node x w).
  - destruct k; cbn [binary_factory]; unfold divide, multiply, subtract, add, minimum, maximum,
      equal, not_equal, greater, greater_eq, less, less_eq, binary_op,
      construct_named, bind; run (as_node l w); by run (as_node r w0).
  - unfold broadcast, nameable_op, construct_named, bind.
    run (get_shape node w).
    by run (get_broadcast_axes new_shape l axis w0).
  - unfold convert, nameable_op, construct_named, bind.
    by run (get_element_type t w).
Qed.

(** ** Calls only add nodes *)

Lemma extends_refl (w : World) : extends w w.
Proof. by split. Qed.

Lemma extends_trans (w1 w2 w3 : World) :
  extends w1 w2 → extends w2 w3 → extends w1 w3.
Proof.
  intros [Hd1 Hn1] [Hd2 Hn2]. split; [congruence|]. by etrans.
Qed.

Lemma stable_ret {A} (a : A) : stable (ret a).
Proof. intros w. apply extends_refl. Qed.

Lemma stable_raise {A} (e : Error) : stable (@raise A e).
Proof. intros w. apply extends_refl. Qed.

Lemma stable_bind {A B} (m : M A) (k : A → M B) :
  stable m → (∀ a, stable (k a)) → stable (bind m k).
Proof.
  intros Hm Hk w. unfold bind. specialize (Hm w).
  destruct (m w) as [[e|a] w1]; [done|].
  eapply extends_trans; [exact Hm|apply Hk].
Qed.

Lemma stable_engine_construct (c : Ctor) (inputs : list nat) :
  stable (engine_construct c inputs).
Proof.
  intros w. destruct (engine_construct c inputs w) as [[e|n] w1] eqn:Hrun.
  - apply engine_construct_inl in Hrun as [_ ->]. apply extends_refl.
  - apply engine_construct_inr in Hrun as (args & s & et & _ & _ & _ & ->).
    split; [done|]. by apply prefix_app_r.
Qed.

Lemma stable_construct_named (c : Ctor) (inputs : list nat)
    (name : option string) :
  stable (construct_named c inputs name).
Proof.
  intros w. unfold construct_named, bind.
  destruct (engine_construct c inputs w) as [[e|n] w1] eqn:Hrun.
  - apply engine_construct_inl in Hrun as [_ ->]. apply extends_refl.
  - apply engine_construct_inr in Hrun as (args & s & et & _ & _ & -> & ->).
    rewrite set_node_name_last. split; [done|]. by apply prefix_app_r.
Qed.

Lemma stable_get_element_type (t : NumericType) : stable (get_element_type t).
Proof. destruct t; apply stable_ret || apply stable_raise. Qed.

Lemma stable_make_constant_node (value : NumericData)
    (dtype : option NumericType) :
  stable (make_constant_node value dtype).
Proof.
  apply stable_bind; [apply stable_get_element_type|].
  intros et. apply stable_engine_construct.
Qed.

Lemma stable_as_node (input_value : NodeInput) : stable (as_node input_value).
Proof.
  destruct input_value; [apply stable_ret|apply stable_make_constant_node].
Qed.

Lemma stable_prepare (c : FactoryCall) : stable (prepare c).
Proof.
  destruct c as [shape dtype|value dtype|k x|k l r|node new_shape axis|node t];
    cbn [prepare].
  - apply stable_bind.
    { unfold assert_list_of_ints.
      destruct (forallb is_int shape); apply stable_ret || apply stable_raise. }
    intros _. apply stable_bind; [apply stable_get_element_type|].
    intros et. destruct (to_shape shape); apply stable_ret || apply stable_raise.
  - apply stable_bind; [apply stable_get_element_type|].
    intros et. apply stable_ret.
  - apply stable_bind; [apply stable_as_node|]. intros n. apply stable_ret.
  - apply stable_bind; [apply stable_as_node|]. intros a.
    apply stable_bind; [apply stable_as_node|]. intros b. apply stable_ret.
  - apply stable_bind.
    { intros w. unfold get_shape. destruct (nodes w !! node); apply extends_refl. }
    intros shape. apply stable_bind; [|intros axes; apply stable_ret].
    unfold get_broadcast_axes.
    destruct (_ <? _); apply stable_ret || apply stable_raise.
  - apply stable_bind; [apply stable_get_element_type|].
    intros et. apply stable_ret.
Qed.

Lemma stable_run_call (c : FactoryCall) (name : option string) :
  stable (run_call c name).
Proof.
  intros w. rewrite run_call_normal_form.
  apply stable_bind; [apply stable_prepare|].
  intros [ctor inputs]. apply stable_construct_named.
Qed.

Lemma stable_call (f : Callable) (left right : NodeInput) :
  stable (call f left right).
Proof.
  destruct f as [k|k]; cbn [call].
  - apply (stable_run_call (call_binary k left right) None).
  - apply (stable_run_call (call_binary k right left) None).
Qed.

Lemma stable_eval (e : Expr) : stable (eval e).
Proof.
  assert (∀ o l r, stable (unhandled o l r)) as Hun.
  { intros o l r. destruct o; apply stable_ret || apply stable_raise. }
  assert (∀ m, stable m → stable (as_result m)) as Hres.
  { intros m Hm. apply stable_bind; [done|]. intros n. apply stable_ret. }
  intros w. destruct e as [l o r|l o r]; cbn [eval].
  - destruct (Node_dict w !! hook o); [apply Hres, stable_call|].
    destruct r, (is_rich_comparison o), (Node_dict w !! reflected_hook o);
      apply Hun || apply Hres, stable_call.
  - destruct (Node_dict w !! reflected_hook o);
      [apply Hres, stable_call|apply Hun].
Qed.

Lemma step_extends (w : World) (a : Action) : extends w (step w a).
Proof.
  destruct a as [c name|e]; [apply stable_run_call|apply stable_eval].
Qed.

Lemma session_extends (actions : list Action) (w : World) :
  extends (module_load w) (session actions w).
Proof.
  unfold session. generalize (module_load w). clear w.
  induction actions as [|a actions IH]; intros w; [apply extends_refl|].
  simpl. eapply extends_trans; [apply step_extends|apply IH].
Qed.

(** ** parameter *)

Lemma forallb_is_int_ints (dims : list Z) : forallb is_int (VInt <$> dims) = true.
Proof. by induction dims. Qed.

Lemma to_shape_ints (dims : list Z) : to_shape (VInt <$> dims) = Some dims.
Proof. induction dims as [|z dims IH]; [done|]. csimpl. by rewrite IH. Qed.

Lemma forallb_is_int_false (shape : list PyValue) (v : PyValue) :
  v ∈ shape → is_int v = false → forallb is_int shape = false.
Proof.
  intros Hin Hv. apply not_true_is_false. intros Hall.
  rewrite forallb_forall in Hall.
  apply list_elem_of_In, Hall in Hin. congruence.
Qed.

Lemma parameter_rejects (shape : list PyValue) (v : PyValue)
    (dtype : option NumericType) (name : option string) (w : World) :
  v ∈ shape → is_int v = false →
  parameter shape dtype name w
  = (inl (InvalidArgument "Parameter shape must be a list of integer values."), w).
Proof.
  intros Hin Hv. unfold parameter, nameable_op, bind, assert_list_of_ints.
  by rewrite (forallb_is_int_false shape v).
Qed.

Lemma parameter_accepts (dims : list Z) (dtype : option NumericType)
    (et : ElementType) (name : option string) (w : World) :
  get_element_type (default np_float32 dtype) w = (inr et, w) →
  parameter (VInt <$> dims) dtype name w
  = (inr (length (nodes w)),
     mkWorld
       (nodes w ++
        [mkNodeObj (op_Parameter et dims) [] dims et
           (default (unique_name (op_Parameter et dims) (length (nodes w))) name)])
       (Node_dict w)).
Proof.
  intros Het. unfold parameter, nameable_op, bind at 1 2 3, assert_list_of_ints.
  rewrite forallb_is_int_ints. unfold ret at 1. rewrite Het.
  unfold native_Parameter. rewrite to_shape_ints. unfold native_call. simpl.
  rewrite set_node_name_last. by destruct name.
Qed.

(** C3: [parameter] fails with an InvalidArgument condition if any entry of
    the shape is not an integer, and for a shape of integers it succeeds and
    returns a new Parameter node, without inputs, whose shape is the given
    shape. *)
Theorem parameter_shape_validation (name : option string) (w : World) :
  (∀ shape v, v ∈ shape → is_int v = false →
     ∃ message,
       parameter shape None name w = (inl (InvalidArgument message), w))
  ∧ (∀ dims : list Z,
       ∃ o, parameter (VInt <$> dims) None name w
            = (inr (length (nodes w)), mkWorld (nodes w ++ [o]) (Node_dict w))
            ∧ (∃ et, node_op o = op_Parameter et dims)
            ∧ node_inputs o = []
            ∧ node_shape o = dims).
Proof.
  split.
  - intros shape v Hin Hv. eexists. by eapply parameter_rejects.
  - intros dims. eexists. split.
    + by apply (parameter_accepts dims None f32).
    + simpl. eauto.
Qed.

(** C8: called without a dtype, [parameter] resolves np.float32 through the
    element-type lookup, and the Parameter node it returns has the 32-bit
    float element type. *)
Theorem parameter_default_element_type (shape : list PyValue)
    (name : option string) (w w' : World) (node : nat) :
  parameter shape None name w = (inr node, w') →
  parameter shape None name w = parameter shape (Some np_float32) name w
  ∧ get_element_type np_float32 w = (inr f32, w)
  ∧ ∃ o dims, nodes w' !! node = Some o
              ∧ node_op o = op_Parameter f32 dims
              ∧ node_element_type o = f32.
Proof.
  intros Hrun. split; [done|]. split; [done|].
  destruct (forallb is_int shape) eqn:Hall.
  - assert (∃ dims, shape = VInt <$> dims) as [dims ->].
    { clear Hrun. induction shape as [|[z| | |] shape IH]; try done.
      - by exists [].
      - simpl in Hall. destruct (IH Hall) as [dims ->]. by exists (z :: dims). }
    rewrite (parameter_accepts dims None f32) in Hrun by done.
    inversion Hrun; subst. eexists _, dims. simpl. split.
    + rewrite lookup_app_r, Nat.sub_diag by lia. reflexivity.
    + by destruct name.
  - unfold parameter, nameable_op, bind, assert_list_of_ints in Hrun.
    by rewrite Hall in Hrun.
Qed.

(** C10: the shape is validated before the element type is resolved.  A
    shape with an entry that is not an integer makes [parameter] fail with
    the shape's InvalidArgument error for every dtype, also for one the
    lookup does not know, for which a call with a valid shape ends in the
    error of the lookup. *)
Theorem parameter_validates_shape_first (shape : list PyValue) (v : PyValue)
    (dtype : option NumericType) (name : option string) (w : World) :
  v ∈ shape → is_int v = false →
  parameter shape dtype name w
  = (inl (InvalidArgument "Parameter shape must be a list of integer values."), w)
  ∧ ∀ (dims : list Z) (t : string),
      parameter (VInt <$> dims) (Some (np_other t)) name w
      = (inl (TypeError "unidentified data type"), w).
Proof.
  intros Hin Hv. split; [by eapply parameter_rejects|].
  intros dims t. unfold parameter, nameable_op, bind, assert_list_of_ints.
  by rewrite forallb_is_int_ints.
Qed.

(** ** Overload registration and sessions *)

Lemma overloads_NoDup : NoDup overloads.*1.
Proof. apply (bool_decide_unpack _). by vm_compute. Qed.

Lemma foldl_setattr_nodes (l : list (string * Callable)) (w : World) :
  nodes (foldl setattr_Node w l) = nodes w.
Proof. revert w. induction l as [|b l IH]; intros w; [done|]. simpl. by rewrite IH. Qed.

Lemma foldl_setattr_other (l : list (string * Callable)) (w : World) (h : string) :
  h ∉ l.*1 → Node_dict (foldl setattr_Node w l) !! h = Node_dict w !! h.
Proof.
  revert w. induction l as [|[h' f] l IH]; intros w Hnot; [done|].
  csimpl in *. apply not_elem_of_cons in Hnot as [Hne Hnot].
  rewrite IH by done. simpl. by rewrite lookup_insert_ne.
Qed.

Lemma foldl_setattr_bound (l : list (string * Callable)) (w : World)
    (h : string) (f : Callable) :
  NoDup l.*1 → (h, f) ∈ l → Node_dict (foldl setattr_Node w l) !! h = Some f.
Proof.
  revert w. induction l as [|[h' f'] l IH]; intros w Hnd Hin.
  - by apply elem_of_nil in Hin.
  - csimpl in *. apply NoDup_cons in Hnd as [Hfresh Hnd].
    apply elem_of_cons in Hin as [Heq|Hin].
    + inversion Heq; subst. rewrite foldl_setattr_other by done.
      simpl. by rewrite lookup_insert_eq.
    + by apply IH.
Qed.

Lemma module_load_bound (w : World) (h : string) (f : Callable) :
  (h, f) ∈ overloads → Node_dict (module_load w) !! h = Some f.
Proof. apply foldl_setattr_bound, overloads_NoDup. Qed.

Lemma session_bound (actions : list Action) (w : World) (h : string)
    (f : Callable) :
  (h, f) ∈ overloads → Node_dict (session actions w) !! h = Some f.
Proof.
  intros Hin. destruct (session_extends actions w) as [-> _].
  by apply module_load_bound.
Qed.

(** C9: the module body binds each of the sixteen operator hooks of the
    Node class exactly once, when the module is loaded; loading changes
    nothing else.  In a session, where the module is loaded before the
    client's first call, no factory call and no operator expression changes
    the class again, so the bindings are neither repeated nor reverted, and
    no call changes a node that already exists: calls only add nodes. *)
Theorem overloads_registered_once_at_load (actions : list Action) (w : World) :
  length overloads = 16
  ∧ NoDup overloads.*1
  ∧ (∀ h f, (h, f) ∈ overloads → Node_dict (module_load w) !! h = Some f)
  ∧ (∀ h, h ∉ overloads.*1 → Node_dict (module_load w) !! h = Node_dict w !! h)
  ∧ nodes (module_load w) = nodes w
  ∧ Node_dict (session actions w) = Node_dict (module_load w)
  ∧ nodes (module_load w) `prefix_of` nodes (session actions w).
Proof.
  split; [done|]. split; [apply overloads_NoDup|].
  split; [intros h f; apply module_load_bound|].
  split; [intros h; apply foldl_setattr_other|].
  split; [apply foldl_setattr_nodes|].
  apply session_extends.
Qed.

Lemma unary_factory_run (k : UnaryKind) (input : NodeInput)
    (name : option string) (w : World) :
  unary_factory k input name w
  = (let! node := as_node input in
     construct_named (op_Unary k) [node] name) w.
Proof.
  change (unary_factory k input name w)
    with (run_call (call_unary k input) name w).
  rewrite run_call_normal_form.
  cbn [prepare]. unfold bind. by run (as_node input w).
Qed.

Lemma binary_factory_run (k : BinaryKind) (left right : NodeInput)
    (name : option string) (w : World) :
  binary_factory k left right name w
  = (let! left_node := as_node left in
     let! right_node := as_node right in
     construct_named (op_Binary k) [left_node; right_node] name) w.
Proof.
  change (binary_factory k left right name w)
    with (run_call (call_binary k left right) name w).
  rewrite run_call_normal_form.
  cbn [prepare]. unfold bind. run (as_node left w). by run (as_node right w0).
Qed.

Lemma construct_named_error (c : Ctor) (inputs : list nat)
    (name : option string) (w w' : World) (e : Error) :
  construct_named c inputs name w = (inl e, w') → e = NativeEngineError.
Proof.
  unfold construct_named, bind.
  destruct (engine_construct c inputs w) as [[e'|n] w1] eqn:Hrun.
  - intros [= <- <-]. by apply engine_construct_inl in Hrun as [-> _].
  - by destruct name.
Qed.

Lemma as_node_error (input : NodeInput) (w w' : World) (e : Error) :
  as_node input w = (inl e, w') →
  e = NativeEngineError ∨ e = TypeError "unidentified data type".
Proof.
  destruct input as [n|v]; [done|].
  cbn [as_node]. unfold make_constant_node, bind.
  destruct (get_element_type _ w) as [[e'|et] w1] eqn:Het.
  - intros [= <- <-]. right. simpl in Het.
    destruct (literal_dtype v); by inversion Het.
  - unfold native_call. simpl. intros Hrun.
    apply engine_construct_inl in Hrun as [-> _]. by left.
Qed.

(** C4: each unary factory coerces its operand, and each binary factory
    each of its two operands, to a Node handle before the native constructor
    is called: a handle is passed on as it is and a raw literal becomes a
    new Constant node.  The native constructor is called on handles only,
    so a call never ends in the refusal of a raw operand by the binding. *)
Theorem operands_coerced_to_nodes (name : option string) (w : World) :
  (∀ k input,
     unary_factory k input name w
     = (let! node := as_node input in
        let! result := engine_construct (op_Unary k) [node] in
        set_node_name result name) w)
  ∧ (∀ k left right,
       binary_factory k left right name w
       = (let! left_node := as_node left in
          let! right_node := as_node right in
          let! result := engine_construct (op_Binary k) [left_node; right_node] in
          set_node_name result name) w)
  ∧ (∀ n, as_node (Handle n) w = (inr n, w))
  ∧ (∀ v, as_node (Raw v) w
          = (let! element_type := get_element_type (literal_dtype v) in
             engine_construct
               (op_Constant element_type (literal_shape v) (literal_values v))
               []) w)
  ∧ (∀ k input w',
       unary_factory k input name w
       ≠ (inl (TypeError "incompatible constructor arguments"), w'))
  ∧ (∀ k left right w',
       binary_factory k left right name w
       ≠ (inl (TypeError "incompatible constructor arguments"), w')).
Proof.
  split; [intros; apply unary_factory_run|].
  split; [intros; apply binary_factory_run|].
  split; [done|]. split; [done|]. split.
  - intros k input w'. rewrite unary_factory_run. unfold bind.
    destruct (as_node input w) as [[e|n] w1] eqn:Hin.
    + apply as_node_error in Hin as [->| ->]; congruence.
    + intros Hrun. by apply construct_named_error in Hrun.
  - intros k l r w'. rewrite binary_factory_run. unfold bind.
    destruct (as_node l w) as [[e|a] w1] eqn:Hl.
    { apply as_node_error in Hl as [->| ->]; congruence. }
    destruct (as_node r w1) as [[e|b] w2] eqn:Hr.
    { apply as_node_error in Hr as [->| ->]; congruence. }
    intros Hrun. by apply construct_named_error in Hrun.
Qed.

(** C7: a factory call with an explicit name is the same call without the
    name followed by the assignment of the name to the node it returns.
    The node of a call without a name keeps the name the engine generated;
    with a name, the returned handle is the same, its name is the given
    string, and nothing else differs: the node's other attributes, all other
    nodes and the class are as the call without the name leaves them. *)
Theorem name_assigned_after_construction (c : FactoryCall) (s : string)
    (w : World) :
  run_call c (Some s) w
  = (let! node := run_call c None in run! set_name node s in ret node) w
  ∧ ∀ node w1,
      run_call c None w = (inr node, w1) →
      ∃ o, nodes w1 !! node = Some o
           ∧ node_name o = unique_name (node_op o) node
           ∧ run_call c (Some s) w
             = (inr node,
                mkWorld (<[node := with_name s o]> (nodes w1)) (Node_dict w1))
           ∧ node_name (with_name s o) = s.
Proof.
  split.
  - unfold bind. rewrite !run_call_normal_form. unfold bind.
    destruct (prepare c w) as [[e|[ctor inputs]] w0]; [done|]. simpl.
    unfold construct_named, bind.
    by destruct (engine_construct ctor inputs w0) as [[e|n] w1].
  - intros node w1. rewrite !run_call_normal_form. unfold bind.
    destruct (prepare c w) as [[e|[ctor inputs]] w0]; [done|]. simpl.
    unfold construct_named, bind.
    destruct (engine_construct ctor inputs w0) as [[e|n] w2] eqn:Hrun; [done|].
    apply engine_construct_inr in Hrun as (args & sh & et & _ & _ & -> & ->).
    rewrite !set_node_name_last. intros [= <- <-]. eexists. simpl.
    split; [by rewrite lookup_app_r, Nat.sub_diag by lia|].
    split; [done|]. split; [|done].
    rewrite insert_app_r_alt by lia. by rewrite Nat.sub_diag.
Qed.

Lemma as_node_scalar (a : Number) (w : World) :
  as_node (Raw (Scalar a)) w = (inr (length (nodes w)), with_literal a w).
Proof. by destruct a. Qed.


Lemma binary_factory_node_number (k : BinaryKind) (a : Number) (n : nat)
    (w : World) :
  binary_factory k (Handle n) (Raw (Scalar a)) None w
  = engine_construct (op_Binary k) [n; length (nodes w)] (with_literal a w).
Proof.
  rewrite binary_factory_run. unfold bind.
  change (as_node (Handle n) w) with ((inr n : Error + nat), w).
  cbv beta iota. rewrite as_node_scalar. unfold construct_named, bind.
  by destruct (engine_construct _ _ _) as [[e|x] w1].
Qed.

Lemma eval_NodeFirst_bound (actions : list Action) (w0 : World) (o : Operator)
    (k : BinaryKind) (l : nat) (r : NodeInput) :
  (hook o, factory k) ∈ overloads →
  eval (NodeFirst l o r) (session actions w0)
  = as_result (binary_factory k (Handle l) r None) (session actions w0).
Proof.
  intros Hin. cbn [eval]. by rewrite (session_bound _ _ _ _ Hin).
Qed.


Lemma as_result_construct_inputs (c : Ctor) (inputs : list nat) (w w' : World)
    (x : nat) :
  as_result (engine_construct c inputs) w = (inr (RNode x), w') →
  ∃ o, nodes w' !! x = Some o ∧ node_op o = c ∧ node_inputs o = inputs.
Proof.
  unfold as_result, bind.
  destruct (engine_construct c inputs w) as [[e|y] w1] eqn:Hrun; [done|].
  intros [= <- <-].
  apply engine_construct_inr in Hrun as (args & s & et & _ & _ & -> & ->).
  eexists. simpl. by rewrite lookup_app_r, Nat.sub_diag by lia.
Qed.


(** C6: once the module is loaded, [node1 == node2] evaluates as
    [equal(node1, node2)]: it is the call of the native Equal constructor on
    the two nodes, and its value is never a bool but the handle of an Equal
    node over [node1] and [node2]. *)
Theorem eq_operator_is_equal (actions : list Action) (w0 : World)
    (node1 node2 : nat) :
  let w := session actions w0 in
  eval (NodeFirst node1 op_eq (Handle node2)) w
  = as_result (equal (Handle node1) (Handle node2) None) w
  ∧ eval (NodeFirst node1 op_eq (Handle node2)) w
    = as_result (engine_construct (op_Binary Equal) [node1; node2]) w
  ∧ ∀ r w',
      eval (NodeFirst node1 op_eq (Handle node2)) w = (inr r, w') →
      ∃ n o, r = RNode n ∧ nodes w' !! n = Some o
             ∧ node_op o = op_Binary Equal
             ∧ node_inputs o = [node1; node2].
Proof.
  intros w.
  assert ((hook op_eq, factory Equal) ∈ overloads) as Hin.
  { unfold overloads. simpl. rewrite !elem_of_cons. naive_solver. }
  pose proof (eval_NodeFirst_bound actions w0 op_eq Equal node1 (Handle node2) Hin)
    as Heval.
  fold w in Heval. cbn [binary_factory] in Heval.
  assert (eval (NodeFirst node1 op_eq (Handle node2)) w
          = as_result (engine_construct (op_Binary Equal) [node1; node2]) w)
    as Heval'.
  { rewrite Heval. unfold as_result, bind.
    change (equal (Handle node1) (Handle node2) None w)
      with (binary_factory Equal (Handle node1) (Handle node2) None w).
    rewrite binary_factory_run. unfold bind. cbn [as_node ret].
    unfold construct_named, bind.
    by destruct (engine_construct _ _ _) as [[e|x] w1]. }
  split_and!; try done.
  intros r w'. rewrite Heval'. destruct r as [n|b].
  - intros Hn. apply as_result_construct_inputs in Hn as (o & ? & ? & ?).
    by exists n, o.
  - unfold as_result, bind.
    by destruct (engine_construct _ _ _) as [[e|x] w1].
Qed.

(** Without the overload, [==] on nodes is the comparison of identity. *)
Lemma eq_operator_without_overload (w : World) (node1 node2 : nat) :
  Node_dict w !! "__eq__" = None →
  eval (NodeFirst node1 op_eq (Handle node2)) w
  = (inr (RBool (bool_decide (node1 = node2))), w).
Proof. intros Hnone. cbn [eval hook reflected_hook]. by rewrite Hnone. Qed.






End properties.

Lemma broadcast_default_axes_witness :
  let o := mkNodeObj (op_Parameter f32 [3; 4]%Z) [] [3; 4]%Z f32 "Parameter_0" in
  nodes world_3_4 !! 0 = Some o
  ∧ length (node_shape o) ≤ length [2; 3; 4]%Z
  ∧ @get_broadcast_axes [2; 3; 4]%Z (node_shape o) None world_3_4
    = (inr {[0]}, world_3_4)
  ∧ (@broadcast reference_engine 0 [2; 3; 4]%Z None None world_3_4).1 = inr 1.
Proof.
  intros o.
  destruct (@broadcast_default_axes reference_engine 0 o [2; 3; 4]%Z None
              world_3_4) as (Haxes & Hcall & Hset).
  - reflexivity.
  - simpl. lia.
  - split; [reflexivity|]. split; [simpl; lia|]. split.
    + rewrite Haxes. reflexivity.
    + rewrite Hcall. reflexivity.
Defined.

(** On the reference engine a target shape of the node's rank that does not
    fit is refused by the engine, not by the layer. *)
Example broadcast_3_4_to_2_2 :
  @broadcast reference_engine 0 [2; 2]%Z None None world_3_4
  = (inl NativeEngineError, world_3_4).
Proof. reflexivity. Qed.





Lemma parameter_shape_validation_witness :
  (∃ message,
     @parameter reference_engine [VInt 2; VStr "x"] None None empty_world
     = (inl (InvalidArgument message), empty_world))
  ∧ (∃ o, @parameter reference_engine [VInt 2; VInt 3] None None empty_world
          = (inr 0, mkWorld [o] ∅)
          ∧ node_shape o = [2; 3]%Z).
Proof.
  destruct (@parameter_shape_validation reference_engine None empty_world)
    as [Hbad Hok].
  split.
  - apply (Hbad _ (VStr "x")); [|reflexivity].
    apply list_elem_of_further, list_elem_of_here.
  - destruct (Hok [2; 3]%Z) as (o & Hrun & _ & _ & Hshape).
    exists o. split; [exact Hrun|exact Hshape].
Defined.

Lemma parameter_default_element_type_witness :
  ∃ o dims, nodes world_3_4 !! 0 = Some o
            ∧ node_op o = op_Parameter f32 dims
            ∧ node_element_type o = f32.
Proof.
  apply (@parameter_default_element_type reference_engine
           [VInt 3; VInt 4] None (module_load empty_world) world_3_4 0).
  reflexivity.
Defined.

Lemma parameter_validates_shape_first_witness :
  @parameter reference_engine [VInt 2; VStr "x"]
    (Some (np_other "complex64")) None empty_world
  = (inl (InvalidArgument "Parameter shape must be a list of integer values."),
     empty_world).
Proof.
  apply (@parameter_validates_shape_first reference_engine
           [VInt 2; VStr "x"] (VStr "x")); [|reflexivity].
  apply list_elem_of_further, list_elem_of_here.
Defined.

Lemma operands_coerced_to_nodes_witness :
  let w := @session reference_engine two_parameters empty_world in
  @binary_factory reference_engine Add (Handle 0) (Raw (Scalar (PyInt 5))) None w
  ≠ (inl (TypeError "incompatible constructor arguments"), w)
  ∧ (@binary_factory reference_engine Add (Handle 0) (Raw (Scalar (PyInt 5)))
       None w).1 = inr 3.
Proof.
  intros w.
  destruct (@operands_coerced_to_nodes reference_engine None w)
    as (_ & _ & _ & _ & _ & Hbinary).
  split; [apply Hbinary|reflexivity].
Defined.

Lemma eq_operator_is_equal_witness :
  let w := @session reference_engine two_parameters empty_world in
  ∃ w', @eval reference_engine (NodeFirst 0 op_eq (Handle 1)) w
        = (inr (RNode 2), w')
        ∧ ∃ o, nodes w' !! 2 = Some o
               ∧ node_op o = op_Binary Equal
               ∧ node_inputs o = [0; 1].
Proof.
  intros w.
  destruct (@eq_operator_is_equal reference_engine two_parameters empty_world
              0 1) as (_ & _ & Hnode).
  eexists. split; [reflexivity|].
  edestruct Hnode as (n & o & Hr & Ho & Hop & Hin); [reflexivity|].
  injection Hr as <-. exists o. split; [exact Ho|]. split; [exact Hop|exact Hin].
Defined.

Lemma name_assigned_after_construction_witness :
  let w := @session reference_engine two_parameters empty_world in
  let add_a_b := call_binary Add (Handle 0) (Handle 1) in
  ∃ w1 o, @run_call reference_engine add_a_b None w = (inr 2, w1)
          ∧ nodes w1 !! 2 = Some o
          ∧ node_name o = "Add_2"
          ∧ @run_call reference_engine add_a_b (Some "sum1") w
            = (inr 2,
               mkWorld (<[2 := with_name "sum1" o]> (nodes w1)) (Node_dict w1))
          ∧ node_name (with_name "sum1" o) = "sum1".
Proof.
  intros w add_a_b.
  destruct (@name_assigned_after_construction reference_engine add_a_b "sum1" w)
    as [_ Hnamed].
  eexists. edestruct Hnamed as (o & Ho & Hdefault & Hrun & Hname);
    [reflexivity|].
  exists o. split; [reflexivity|]. split; [exact Ho|].
  split; [rewrite Hdefault; injection Ho as <-; reflexivity|].
  split; [exact Hrun|exact Hname].
Defined.

Lemma overloads_registered_once_at_load_witness :
  ("__rsub__", lambda_swapped Subtract) ∈ overloads
  ∧ Node_dict (module_load empty_world) !! "__rsub__"
    = Some (lambda_swapped Subtract)
  ∧ Node_dict (@session reference_engine two_parameters empty_world)
    = Node_dict (module_load empty_world).
Proof.
  assert (("__rsub__", lambda_swapped Subtract) ∈ overloads) as Hin.
  { do 6 apply list_elem_of_further. apply list_elem_of_here. }
  destruct (@overloads_registered_once_at_load reference_engine
              two_parameters empty_world)
    as (_ & _ & Hbound & _ & _ & Hdict & _).
  split; [exact Hin|]. split; [exact (Hbound _ _ Hin)|exact Hdict].
Defined.

(** * Further properties of the module *)

Section more_properties.
Context `{NativeEngine}.

Lemma forward_bound (o : Operator) :
  (hook o, factory (operator_factory o)) ∈ overloads.
Proof. destruct o; unfold overloads; simpl; rewrite !elem_of_cons; naive_solver. Qed.

Lemma reflected_bound (o : Operator) :
  (reflected_hook o,
   if is_rich_comparison o then factory (mirrored (operator_factory o))
   else lambda_swapped (operator_factory o)) ∈ overloads.
Proof. destruct o; unfold overloads; simpl; rewrite !elem_of_cons; naive_solver. Qed.

Lemma eval_NodeFirst_session (actions : list Action) (w0 : World)
    (l : nat) (o : Operator) (r : NodeInput) :
  eval (NodeFirst l o r) (session actions w0)
  = as_result (binary_factory (operator_factory o) (Handle l) r None)
      (session actions w0).
Proof. apply eval_NodeFirst_bound, forward_bound. Qed.

Lemma eval_NumberFirst_session (actions : list Action) (w0 : World)
    (a : Number) (o : Operator) (n : nat) :
  eval (NumberFirst a o n) (session actions w0)
  = (if is_rich_comparison o
     then as_result (binary_factory (mirrored (operator_factory o))
                       (Handle n) (Raw (Scalar a)) None)
     else as_result (binary_factory (operator_factory o)
                       (Raw (Scalar a)) (Handle n) None))
      (session actions w0).
Proof.
  cbn [eval]. rewrite (session_bound _ _ _ _ (reflected_bound o)).
  by destruct (is_rich_comparison o).
Qed.

(** X1: once the module is loaded, every infix operator with a node on the
    left evaluates as the factory bound to its hook, called on the two
    operands in the order they are written, whatever the right operand is
    (a node or a literal).  A successful evaluation returns a node built by
    that factory's native constructor with the left node as first input. *)
Theorem operators_on_nodes (actions : list Action) (w0 : World)
    (l : nat) (o : Operator) (r : NodeInput) :
  let w := session actions w0 in
  eval (NodeFirst l o r) w
  = as_result (binary_factory (operator_factory o) (Handle l) r None) w
  ∧ ∀ x w', eval (NodeFirst l o r) w = (inr x, w') →
      ∃ n obj, x = RNode n ∧ nodes w' !! n = Some obj
               ∧ node_op obj = op_Binary (operator_factory o)
               ∧ head (node_inputs obj) = Some l.
Proof.
  intros w. split; [apply eval_NodeFirst_session|].
  intros x w'. unfold w. rewrite eval_NodeFirst_session.
  unfold as_result, bind. rewrite binary_factory_run. unfold bind.
  change (as_node (Handle l) (session actions w0))
    with ((inr l : Error + nat), session actions w0). cbv beta iota.
  destruct (as_node r _) as [[e|b] w1]; [done|].
  unfold construct_named, bind.
  destruct (engine_construct _ _ w1) as [[e|n] w2] eqn:Hrun; [done|].
  apply engine_construct_inr in Hrun as (args & s & et & _ & _ & -> & ->).
  cbn [set_node_name ret]. intros [= <- <-].
  eexists _, _. split; [done|]. simpl.
  by rewrite lookup_app_r, Nat.sub_diag by lia.
Qed.

(** X2: once the module is loaded, a comparison with a number on the left
    of a node is handled by the node's mirrored comparison with the node
    first: [a < n] is [greater(n, a)], [a <= n] is [greater_eq(n, a)], and
    [a == n] is [equal(n, a)].  The native constructor gets the node first
    and the lifted literal second. *)
Theorem number_compared_with_node (actions : list Action) (w0 : World)
    (a : Number) (o : Operator) (n : nat) :
  is_rich_comparison o = true →
  let w := session actions w0 in
  eval (NumberFirst a o n) w
  = as_result (binary_factory (mirrored (operator_factory o))
                 (Handle n) (Raw (Scalar a)) None) w
  ∧ eval (NumberFirst a o n) w
    = as_result (engine_construct (op_Binary (mirrored (operator_factory o)))
                   [n; length (nodes w)]) (with_literal a w).
Proof.
  intros Hcmp w. unfold w. rewrite eval_NumberFirst_session, Hcmp.
  split; [done|]. unfold as_result, bind.
  by rewrite binary_factory_node_number.
Qed.

(** X3: once the module is loaded, [/] means [divide] under classic and
    under true division alike, for a node on the left and for a number on
    the left. *)
Theorem division_operators_agree (actions : list Action) (w0 : World)
    (n : nat) (r : NodeInput) (a : Number) :
  let w := session actions w0 in
  eval (NodeFirst n op_div r) w = eval (NodeFirst n op_truediv r) w
  ∧ eval (NumberFirst a op_div n) w = eval (NumberFirst a op_truediv n) w
  ∧ eval (NodeFirst n op_div r) w
    = as_result (divide (Handle n) r None) w
  ∧ eval (NumberFirst a op_div n) w
    = as_result (divide (Raw (Scalar a)) (Handle n) None) w.
Proof.
  intros w. unfold w.
  rewrite !eval_NodeFirst_session, !eval_NumberFirst_session. done.
Qed.

Lemma run_call_inr (c : FactoryCall) (name : option string) (w w' : World)
    (n : nat) :
  run_call c name w = (inr n, w') →
  ∃ w1 ctor inputs s et,
    prepare c w = (inr (ctor, inputs), w1)
    ∧ is_Some (mapM (λ i, nodes w1 !! i) inputs)
    ∧ n = length (nodes w1)
    ∧ w' = mkWorld
             (nodes w1 ++
              [mkNodeObj ctor inputs s et (default (unique_name ctor n) name)])
             (Node_dict w1).
Proof.
  rewrite run_call_normal_form. unfold bind.
  destruct (prepare c w) as [[e|[ctor inputs]] w1]; [done|]. simpl.
  unfold construct_named, bind.
  destruct (engine_construct ctor inputs w1) as [[e|m] w2] eqn:Hrun; [done|].
  apply engine_construct_inr in Hrun as (args & s & et & Hargs & _ & -> & ->).
  rewrite set_node_name_last. intros [= <- <-].
  exists w1, ctor, inputs, s, et. split; [done|]. split; [by eexists|].
  split; [done|]. by destruct name.
Qed.

Lemma run_call_inl (c : FactoryCall) (name : option string) (w w' : World)
    (e : Error) :
  run_call c name w = (inl e, w') →
  prepare c w = (inl e, w')
  ∨ ∃ p, prepare c w = (inr p, w') ∧ e = NativeEngineError.
Proof.
  rewrite run_call_normal_form. unfold bind.
  destruct (prepare c w) as [[e'|[ctor inputs]] w1]; [intros [= -> ->]; by left|].
  simpl.
  unfold construct_named, bind.
  destruct (engine_construct ctor inputs w1) as [[e'|m] w2] eqn:Hrun.
  - apply engine_construct_inl in Hrun as [-> ->]. intros [= <- <-].
    right. by eexists.
  - by destruct name.
Qed.

Lemma prepare_built_by (c : FactoryCall) (w w1 : World) (ctor : Ctor)
    (inputs : list nat) :
  prepare c w = (inr (ctor, inputs), w1) → built_by c ctor.
Proof.
  destruct c as [shape dtype|value dtype|k x|k l r|node new_shape axis|node t];
    cbn [prepare]; unfold bind.
  - destruct (assert_list_of_ints _ _ w) as [[?|?] ?]; [done|].
    destruct (get_element_type _ _) as [[?|?] ?]; [done|].
    destruct (to_shape shape); [|done]. by intros [= <- _ _].
  - destruct (get_element_type _ _) as [[?|?] ?]; [done|]. by intros [= <- _ _].
  - destruct (as_node x w) as [[?|?] ?]; [done|]. by intros [= <- _ _].
  - destruct (as_node l w) as [[?|?] ?]; [done|].
    destruct (as_node r _) as [[?|?] ?]; [done|]. by intros [= <- _ _].
  - destruct (get_shape node w) as [[?|?] ?]; [done|].
    destruct (get_broadcast_axes _ _ _ _) as [[?|?] ?]; [done|].
    by intros [= <- _ _].
  - destruct (get_element_type _ _) as [[?|?] ?]; [done|]. by intros [= <- _ _].
Qed.

Lemma run_call_stored (c : FactoryCall) (name : option string) (w w' : World)
    (n : nat) :
  run_call c name w = (inr n, w') →
  ∃ o, nodes w' !! n = Some o
       ∧ built_by c (node_op o)
       ∧ node_name o = default (unique_name (node_op o) n) name.
Proof.
  intros Hrun.
  apply run_call_inr in Hrun as (w1 & ctor & inputs & s & et & Hprep & _ & -> & ->).
  eexists. split; [simpl; by rewrite lookup_app_r, Nat.sub_diag by lia|].
  simpl. split; [by eapply prepare_built_by|done].
Qed.

(** X6: a successful factory call returns a handle that did not exist
    before the call and is the last node stored; the node was built by the
    native constructor of that factory, and its name is the one given, or
    the engine's when none was given. *)
Theorem factory_returns_new_node (c : FactoryCall) (name : option string)
    (w w' : World) (n : nat) :
  run_call c name w = (inr n, w') →
  length (nodes w) ≤ n
  ∧ length (nodes w') = S n
  ∧ ∃ o, nodes w' !! n = Some o
         ∧ built_by c (node_op o)
         ∧ node_name o = default (unique_name (node_op o) n) name.
Proof.
  intros Hrun. split; [|split; [|by eapply run_call_stored]];
    apply run_call_inr in Hrun
      as (w1 & ctor & inputs & s & et & Hprep & _ & -> & ->);
    destruct (stable_prepare c w) as [_ Hpre]; rewrite Hprep in Hpre;
    apply prefix_length in Hpre; simpl in *; [done|].
  rewrite length_app. simpl. lia.
Qed.

Lemma prepare_without_lifting (c : FactoryCall) (w : World) :
  lifts_operand c = false → (prepare c w).2 = w.
Proof.
  destruct c as [shape dtype|value dtype|k x|k l r|node new_shape axis|node t];
    cbn [prepare]; unfold bind; intros Hlift.
  - unfold assert_list_of_ints. destruct (forallb is_int shape); [|done].
    cbn [ret]. destruct (default np_float32 dtype); try done;
      cbn [get_element_type ret]; by destruct (to_shape shape).
  - by destruct (default (literal_dtype value) dtype).
  - by destruct x.
  - by destruct l, r.
  - unfold get_shape. destruct (nodes w !! node); [|done].
    unfold get_broadcast_axes. by destruct (_ <? _).
  - by destruct t.
Qed.

(** X11: a call without a raw literal among its operands is atomic: if it
    fails the world is unchanged, and if it succeeds exactly one node is
    appended and returned. *)
Theorem call_without_literal_is_atomic (c : FactoryCall)
    (name : option string) (w : World) :
  lifts_operand c = false →
  (∀ e w', run_call c name w = (inl e, w') → w' = w)
  ∧ (∀ n w', run_call c name w = (inr n, w') →
       n = length (nodes w)
       ∧ ∃ o, w' = mkWorld (nodes w ++ [o]) (Node_dict w)).
Proof.
  intros Hlift. pose proof (prepare_without_lifting c w Hlift) as Hw. split.
  - intros e w' Hrun.
    apply run_call_inl in Hrun as [Hprep|(p & Hprep & _)];
      rewrite Hprep in Hw; by simpl in Hw.
  - intros n w' Hrun.
    apply run_call_inr in Hrun as (w1 & ctor & inputs & s & et & Hprep & _ & -> & ->).
    rewrite Hprep in Hw. simpl in Hw. subst w1. split; [done|]. by eexists.
Qed.




(** X5: whatever is bound in the class, a node obtained from an infix
    expression is a binary operator node that carries the name the engine
    generated: the hooks call the factories without a name. *)
Theorem operator_nodes_are_unnamed (e : Expr) (w w' : World) (x : nat) :
  eval e w = (inr (RNode x), w') →
  ∃ o k, nodes w' !! x = Some o
         ∧ node_op o = op_Binary k
         ∧ node_name o = unique_name (node_op o) x.
Proof.
  assert (∀ f l r, as_result (call f l r) w = (inr (RNode x), w') →
          ∃ o k, nodes w' !! x = Some o ∧ node_op o = op_Binary k
                 ∧ node_name o = unique_name (node_op o) x) as Hcall.
  { intros f l r. unfold as_result, bind.
    destruct (call f l r w) as [[err|n] w1] eqn:Hrun; [done|].
    intros [= <- <-].
    assert (∃ k l' r', run_call (call_binary k l' r') None w = (inr n, w1))
      as (k & l' & r' & Hrun') by (destruct f; by eexists _, _, _).
    apply run_call_stored in Hrun' as (o & Ho & Hop & Hname).
    exists o, k. split; [done|]. split; [|done].
    simpl in Hop. destruct (node_op o); by subst. }
  assert (∀ o l r, unhandled o l r w ≠ (inr (RNode x), w')) as Hun.
  { intros o l r. by destruct o. }
  destruct e as [l o r|a o n]; cbn [eval].
  - destruct (Node_dict w !! hook o); [apply Hcall|].
    destruct r, (is_rich_comparison o), (Node_dict w !! reflected_hook o);
      (apply Hcall || (intros Hbad; by apply Hun in Hbad)).
  - destruct (Node_dict w !! reflected_hook o); [apply Hcall|].
    intros Hbad. by apply Hun in Hbad.
Qed.

Lemma constant_as_node (v : NumericData) (w : World) :
  constant v None None w = as_node (Raw v) w.
Proof.
  unfold constant, nameable_op, bind. cbn [as_node].
  by destruct (make_constant_node v None w) as [[e|c] w1].
Qed.

(** X7: passing a raw literal as an operand is the same as passing the
    node of [constant(literal)]: for the operand of a unary factory, for the
    left operand of a binary factory, and for the right operand next to a
    node. *)
Theorem literal_operand_is_constant (v : NumericData) (name : option string)
    (w : World) :
  (∀ k, unary_factory k (Raw v) name w
        = (let! c := constant v None None in
           unary_factory k (Handle c) name) w)
  ∧ (∀ k r, binary_factory k (Raw v) r name w
            = (let! c := constant v None None in
               binary_factory k (Handle c) r name) w)
  ∧ (∀ k n, binary_factory k (Handle n) (Raw v) name w
            = (let! c := constant v None None in
               binary_factory k (Handle n) (Handle c) name) w).
Proof.
  split; [|split].
  - intros k. rewrite unary_factory_run. unfold bind.
    rewrite constant_as_node.
    destruct (as_node (Raw v) w) as [[e|c] w1]; [done|].
    rewrite unary_factory_run. by unfold bind.
  - intros k r. rewrite binary_factory_run. unfold bind.
    rewrite constant_as_node.
    destruct (as_node (Raw v) w) as [[e|c] w1]; [done|].
    rewrite binary_factory_run. by unfold bind.
  - intros k n. rewrite binary_factory_run. unfold bind.
    rewrite constant_as_node.
    change (as_node (Handle n) w) with ((inr n : Error + nat), w).
    cbv beta iota.
    destruct (as_node (Raw v) w) as [[e|c] w1]; [done|].
    rewrite binary_factory_run. by unfold bind.
Qed.

Lemma forallb_is_int_inv (shape : list PyValue) :
  forallb is_int shape = true → ∃ dims, shape = VInt <$> dims.
Proof.
  induction shape as [|[z| | |] shape IH]; try done.
  - by exists [].
  - simpl. intros Hall. destruct (IH Hall) as [dims ->]. by exists (z :: dims).
Qed.

Lemma get_element_type_supported (t : NumericType) (w : World) :
  supported t = true → ∃ et, get_element_type t w = (inr et, w).
Proof. destruct t; try done; by eexists. Qed.

Lemma get_element_type_unsupported (t : NumericType) (w : World) :
  supported t = false →
  get_element_type t w = (inl (TypeError "unidentified data type"), w).
Proof. by destruct t. Qed.

(** X8: [parameter] succeeds exactly if every entry of the shape is an
    integer and the dtype (np.float32 if omitted) is known to the lookup.
    With a valid shape and an unknown dtype it ends in the error of the
    lookup, and whenever it fails it leaves the world unchanged. *)
Theorem parameter_outcome (shape : list PyValue) (dtype : option NumericType)
    (name : option string) (w : World) :
  ((∃ n w', parameter shape dtype name w = (inr n, w'))
   ↔ forallb is_int shape = true
     ∧ supported (default np_float32 dtype) = true)
  ∧ (forallb is_int shape = true →
     supported (default np_float32 dtype) = false →
     parameter shape dtype name w
     = (inl (TypeError "unidentified data type"), w))
  ∧ (∀ e w', parameter shape dtype name w = (inl e, w') → w' = w).
Proof.
  destruct (forallb is_int shape) eqn:Hall.
  - apply forallb_is_int_inv in Hall as [dims ->].
    destruct (supported (default np_float32 dtype)) eqn:Hsup.
    + destruct (get_element_type_supported _ w Hsup) as [et Het].
      rewrite (parameter_accepts dims dtype et name w Het).
      split; [split; [done|by eexists _, _]|]. split; [done|]. done.
    + assert (parameter (VInt <$> dims) dtype name w
              = (inl (TypeError "unidentified data type"), w)) as ->.
      { unfold parameter, nameable_op, bind, assert_list_of_ints.
        rewrite forallb_is_int_ints. cbn [ret].
        by rewrite (get_element_type_unsupported _ w Hsup). }
      split; [split; [by intros (? & ? & ?)|by intros [_ ?]]|].
      split; [done|]. by intros e w' [= _ <-].
  - assert (parameter shape dtype name w
            = (inl (InvalidArgument
                      "Parameter shape must be a list of integer values."), w))
      as ->.
    { unfold parameter, nameable_op, bind, assert_list_of_ints.
      by rewrite Hall. }
    split; [split; [by intros (? & ? & ?)|by intros [? _]]|].
    split; [done|]. by intros e w' [= _ <-].
Qed.

(** X9: [convert] resolves the type before it calls the constructor: a
    type the lookup does not know ends in the lookup's error and an
    unchanged world, whatever the node.  A successful call appends one
    Convert node for the resolved element type, whose only input is the
    given node, which existed before. *)
Theorem convert_outcome (node : nat) (new_type : NumericType)
    (name : option string) (w : World) :
  (supported new_type = false →
   convert node new_type name w
   = (inl (TypeError "unidentified data type"), w))
  ∧ (∀ n w', convert node new_type name w = (inr n, w') →
       ∃ et o source,
         get_element_type new_type w = (inr et, w)
         ∧ nodes w !! node = Some source
         ∧ n = length (nodes w)
         ∧ nodes w' = (nodes w ++ [o])%list
         ∧ node_op o = op_Convert et
         ∧ node_inputs o = [node]).
Proof.
  split.
  - intros Hsup. unfold convert, nameable_op, bind.
    by rewrite (get_element_type_unsupported _ w Hsup).
  - intros n w' Hrun.
    change (convert node new_type name w)
      with (run_call (call_convert node new_type) name w) in Hrun.
    apply run_call_inr in Hrun as (w1 & ctor & inputs & s & et' & Hprep & Hargs & -> & ->).
    cbn [prepare] in Hprep. unfold bind in Hprep.
    destruct (supported new_type) eqn:Hsup.
    + destruct (get_element_type_supported _ w Hsup) as [et Het].
      rewrite Het in Hprep. injection Hprep as <- <- <-.
      destruct Hargs as [args Hargs]. simpl in Hargs.
      destruct (nodes w !! node) as [source|] eqn:Hnode; [|done].
      by eexists et, _, source.
    + by rewrite (get_element_type_unsupported _ w Hsup) in Hprep.
Qed.

Lemma world_eq (w1 w2 : World) :
  nodes w1 = nodes w2 → Node_dict w1 = Node_dict w2 → w1 = w2.
Proof. destruct w1, w2. simpl. by intros -> ->. Qed.

Lemma module_load_dict_agrees (w1 w2 : World) :
  (∀ h, h ∉ overloads.*1 → Node_dict w1 !! h = Node_dict w2 !! h) →
  Node_dict (module_load w1) = Node_dict (module_load w2).
Proof.
  intros Hother. apply map_eq. intros h.
  destruct (decide (h ∈ overloads.*1)) as [Hin|Hnot].
  - apply list_elem_of_fmap in Hin as ([h' f] & -> & Hin).
    by rewrite !(module_load_bound _ _ _ Hin).
  - unfold module_load. rewrite !foldl_setattr_other by done. by apply Hother.
Qed.

(** X10: executing the module body again changes nothing, and it
    overwrites whatever an operator hook was bound to before. *)
Theorem module_load_idempotent (w : World) :
  module_load (module_load w) = module_load w
  ∧ ∀ h f, h ∈ overloads.*1 →
      module_load (setattr_Node w (h, f)) = module_load w.
Proof.
  split.
  - apply world_eq.
    + unfold module_load. by rewrite !foldl_setattr_nodes.
    + apply module_load_dict_agrees. intros h Hnot.
      unfold module_load. by rewrite foldl_setattr_other.
  - intros h f Hin. apply world_eq.
    + unfold module_load. by rewrite !foldl_setattr_nodes.
    + apply module_load_dict_agrees. intros h' Hnot. simpl.
      rewrite lookup_insert_ne; [done|]. by intros ->.
Qed.

Lemma preserves_bind (P : World → Prop) {A B} (m : M A) (k : A → M B) :
  preserves P m → (∀ a, preserves P (k a)) → preserves P (bind m k).
Proof.
  intros Hm Hk w Hw. unfold bind. specialize (Hm w Hw).
  destruct (m w) as [[e|a] w1]; [done|]. by apply Hk.
Qed.

Lemma preserves_pure (P : World → Prop) {A} (m : M A) :
  (∀ w, (m w).2 = w) → preserves P m.
Proof. intros Hm w Hw. by rewrite Hm. Qed.

Lemma mapM_lookup_lt (l : list NodeObj) (inputs : list nat)
    (args : list NodeObj) (j : nat) :
  mapM (λ i, l !! i) inputs = Some args → j ∈ inputs → j < length l.
Proof.
  intros Hargs Hj. apply mapM_Some_1 in Hargs.
  apply (Forall2_Forall_l _ (λ i, i < length l)) in Hargs.
  - rewrite Forall_forall in Hargs. by apply Hargs.
  - apply Forall_true. intros y i Hi. by eapply lookup_lt_Some.
Qed.

Lemma inputs_precede_snoc (w : World) (o : NodeObj)
    (dict : gmap string Callable) :
  inputs_precede w →
  (∀ j, j ∈ node_inputs o → j < length (nodes w)) →
  inputs_precede (mkWorld (nodes w ++ [o]) dict).
Proof.
  intros Hw Ho i o' j Hi Hj. simpl in Hi.
  apply lookup_app_Some in Hi as [Hi|[Hge Hi]].
  - by eapply Hw.
  - apply list_lookup_singleton_Some in Hi as [Hi <-].
    apply Ho in Hj. lia.
Qed.

Lemma preserves_engine_construct (c : Ctor) (inputs : list nat) :
  preserves inputs_precede (engine_construct c inputs).
Proof.
  intros w Hw. destruct (engine_construct c inputs w) as [[e|n] w1] eqn:Hrun.
  - by apply engine_construct_inl in Hrun as [_ ->].
  - apply engine_construct_inr in Hrun as (args & s & et & Hargs & _ & _ & ->).
    apply inputs_precede_snoc; [done|]. simpl.
    intros j Hj. by eapply mapM_lookup_lt.
Qed.

Lemma preserves_construct_named (c : Ctor) (inputs : list nat)
    (name : option string) :
  preserves inputs_precede (construct_named c inputs name).
Proof.
  intros w Hw. unfold construct_named, bind.
  destruct (engine_construct c inputs w) as [[e|n] w1] eqn:Hrun.
  - by apply engine_construct_inl in Hrun as [_ ->].
  - apply engine_construct_inr in Hrun as (args & s & et & Hargs & _ & -> & ->).
    rewrite set_node_name_last. apply inputs_precede_snoc; [done|].
    intros j Hj. apply (mapM_lookup_lt _ inputs args); [done|].
    by destruct name.
Qed.

Lemma preserves_as_node (x : NodeInput) : preserves inputs_precede (as_node x).
Proof.
  destruct x as [n|v]; [by apply preserves_pure|].
  cbn [as_node]. apply preserves_bind.
  - apply preserves_pure. intros w. by destruct (default _ _).
  - intros et. apply preserves_engine_construct.
Qed.

Lemma preserves_prepare (c : FactoryCall) :
  preserves inputs_precede (prepare c).
Proof.
  destruct c as [shape dtype|value dtype|k x|k l r|node new_shape axis|node t];
    try (apply preserves_pure; intros w;
         by apply (prepare_without_lifting _ w)).
  - cbn [prepare]. apply preserves_bind; [apply preserves_as_node|].
    intros n. by apply preserves_pure.
  - cbn [prepare]. apply preserves_bind; [apply preserves_as_node|].
    intros a. apply preserves_bind; [apply preserves_as_node|].
    intros b. by apply preserves_pure.
Qed.

Lemma preserves_run_call (c : FactoryCall) (name : option string) :
  preserves inputs_precede (run_call c name).
Proof.
  intros w Hw. rewrite run_call_normal_form.
  apply preserves_bind; [apply preserves_prepare| |done].
  intros [ctor inputs]. apply preserves_construct_named.
Qed.

Lemma preserves_eval (e : Expr) : preserves inputs_precede (eval e).
Proof.
  assert (∀ f l r, preserves inputs_precede (as_result (call f l r))) as Hcall.
  { intros f l r. apply preserves_bind; [|intros n; by apply preserves_pure].
    destruct f as [k|k]; cbn [call].
    - apply (preserves_run_call (call_binary k l r) None).
    - apply (preserves_run_call (call_binary k r l) None). }
  assert (∀ o l r, preserves inputs_precede (unhandled o l r)) as Hun.
  { intros o l r. apply preserves_pure. intros w. by destruct o. }
  intros w Hw. destruct e as [l o r|a o n]; cbn [eval].
  - destruct (Node_dict w !! hook o); [by apply Hcall|].
    destruct r, (is_rich_comparison o), (Node_dict w !! reflected_hook o);
      by (apply Hcall || apply Hun).
  - destruct (Node_dict w !! reflected_hook o); by (apply Hcall || apply Hun).
Qed.

(** X13: in a session every input of every node is a node stored earlier,
    if that held of the world the session started in: factories and
    operators build nodes over existing nodes and fresh constants only. *)
Theorem session_keeps_inputs_earlier (actions : list Action) (w0 : World) :
  inputs_precede w0 → inputs_precede (session actions w0).
Proof.
  intros Hw0. unfold session.
  assert (inputs_precede (module_load w0)) as Hload.
  { intros i o j. unfold module_load. rewrite foldl_setattr_nodes. apply Hw0. }
  revert Hload. generalize (module_load w0). clear.
  induction actions as [|a actions IH]; intros w Hw; [done|].
  simpl. apply IH. destruct a as [c name|e]; cbn [step].
  - by apply preserves_run_call.
  - by apply preserves_eval.
Qed.
End more_properties.

Lemma operators_on_nodes_witness :
  let w := @session reference_engine two_parameters empty_world in
  ∃ w' obj, @eval reference_engine (NodeFirst 0 op_lt (Handle 1)) w
            = (inr (RNode 2), w')
            ∧ nodes w' !! 2 = Some obj
            ∧ node_op obj = op_Binary Less
            ∧ head (node_inputs obj) = Some 0.
Proof.
  intros w.
  destruct (@operators_on_nodes reference_engine two_parameters empty_world
              0 op_lt (Handle 1)) as [_ Hnode].
  eexists. edestruct Hnode as (n & obj & Hr & Hobj & Hop & Hin); [reflexivity|].
  injection Hr as <-. exists obj.
  split; [reflexivity|]. split; [exact Hobj|]. split; [exact Hop|exact Hin].
Defined.

Lemma number_compared_with_node_witness :
  let w := @session reference_engine two_parameters empty_world in
  is_rich_comparison op_lt = true
  ∧ @eval reference_engine (NumberFirst (PyInt 5) op_lt 0) w
    = as_result
        (@greater reference_engine (Handle 0) (Raw (Scalar (PyInt 5))) None) w
  ∧ (@eval reference_engine (NumberFirst (PyInt 5) op_lt 0) w).1
    = inr (RNode 3).
Proof.
  intros w.
  destruct (@number_compared_with_node reference_engine two_parameters
              empty_world (PyInt 5) op_lt 0 eq_refl) as [Hcall _].
  split; [reflexivity|]. split; [exact Hcall|reflexivity].
Defined.


Lemma operator_nodes_are_unnamed_witness :
  let w := @session reference_engine two_parameters empty_world in
  ∃ o k, nodes (@eval reference_engine (NodeFirst 0 op_plus (Handle 1)) w).2
           !! 2 = Some o
         ∧ node_op o = op_Binary k
         ∧ node_name o = "Add_2".
Proof.
  intros w.
  destruct (@operator_nodes_are_unnamed reference_engine
              (NodeFirst 0 op_plus (Handle 1)) w
              (@eval reference_engine (NodeFirst 0 op_plus (Handle 1)) w).2
              2 eq_refl) as (o & k & Ho & Hop & Hname).
  exists o, k. split; [exact Ho|]. split; [exact Hop|].
  rewrite Hname. injection Ho as <-. reflexivity.
Defined.

Lemma factory_returns_new_node_witness :
  let w := @session reference_engine two_parameters empty_world in
  let c := call_unary Sqrt (Raw (Scalar (PyInt 4))) in
  let w' := (@run_call reference_engine c (Some "root") w).2 in
  @run_call reference_engine c (Some "root") w = (inr 3, w')
  ∧ length (nodes w) ≤ 3
  ∧ length (nodes w') = 4
  ∧ ∃ o, nodes w' !! 3 = Some o
         ∧ built_by c (node_op o)
         ∧ node_name o = "root".
Proof.
  intros w c w'. split; [reflexivity|].
  exact (@factory_returns_new_node reference_engine c (Some "root") w w' 3
           eq_refl).
Defined.

Lemma call_without_literal_is_atomic_witness :
  let w := @session reference_engine two_parameters empty_world in
  let c := call_binary Add (Handle 0) (Handle 1) in
  lifts_operand c = false
  ∧ (∀ n w', @run_call reference_engine c None w = (inr n, w') →
       n = length (nodes w)
       ∧ ∃ o, w' = mkWorld (nodes w ++ [o]) (Node_dict w))
  ∧ (@run_call reference_engine c None w).1 = inr 2.
Proof.
  intros w c.
  destruct (@call_without_literal_is_atomic reference_engine c None w eq_refl)
    as [_ Hok].
  split; [reflexivity|]. split; [exact Hok|reflexivity].
Defined.

Lemma parameter_outcome_witness :
  (∃ n w', @parameter reference_engine [VInt 2; VInt 3] (Some np_int32) None
             empty_world = (inr n, w'))
  ∧ @parameter reference_engine [VInt 2; VInt 3] (Some (np_other "complex64"))
      None empty_world
    = (inl (TypeError "unidentified data type"), empty_world).
Proof.
  split.
  - apply (@parameter_outcome reference_engine [VInt 2; VInt 3]
             (Some np_int32) None empty_world).
    split; reflexivity.
  - apply (@parameter_outcome reference_engine [VInt 2; VInt 3]
             (Some (np_other "complex64")) None empty_world); reflexivity.
Defined.

Lemma convert_outcome_witness :
  let w := @session reference_engine two_parameters empty_world in
  @convert reference_engine 0 (np_other "complex64") None w
  = (inl (TypeError "unidentified data type"), w)
  ∧ ∃ et o source,
      get_element_type np_float32 w = (inr et, w)
      ∧ nodes w !! 0 = Some source
      ∧ 2 = length (nodes w)
      ∧ nodes (@convert reference_engine 0 np_float32 None w).2
        = (nodes w ++ [o])%list
      ∧ node_op o = op_Convert et
      ∧ node_inputs o = [0].
Proof.
  intros w. split.
  - apply (@convert_outcome reference_engine 0 (np_other "complex64") None w).
    reflexivity.
  - destruct (@convert_outcome reference_engine 0 np_float32 None w)
      as [_ Hok].
    apply (Hok 2 (@convert reference_engine 0 np_float32 None w).2).
    reflexivity.
Defined.

Lemma module_load_idempotent_witness :
  "__add__" ∈ overloads.*1
  ∧ module_load (setattr_Node empty_world ("__add__", lambda_swapped Subtract))
    = module_load empty_world.
Proof.
  assert ("__add__" ∈ overloads.*1) as Hin by apply list_elem_of_here.
  split; [exact Hin|].
  apply (@module_load_idempotent empty_world). exact Hin.
Defined.

Lemma session_keeps_inputs_earlier_witness :
  inputs_precede empty_world
  ∧ inputs_precede
      (@session reference_engine
         (two_parameters
          ++ [do_eval (NumberFirst (PyInt 5) op_minus 0);
              do_call (call_unary Abs (Handle 3)) (Some "distance")])
         empty_world).
Proof.
  assert (inputs_precede empty_world) as Hempty.
  { intros i o j Hi. simpl in Hi. rewrite lookup_nil in Hi. discriminate Hi. }
  split; [exact Hempty|].
  apply (@session_keeps_inputs_earlier reference_engine). exact Hempty.
Defined.
